(** * Placeholder binding and value synchronisation of the document filler

    A shallow embedding of [frontend/src/components/Edit.tsx]: the occurrence
    binder ([renameDocxByOccurrence]), the upload that seeds the placeholder
    store, the update adapter ([applyStructuredUpdates]), the draft handlers
    ([onDraftChange], [applyOne], the chat callback and the draft effect) and
    the two materialisers (preview and download).

    Conventions.
    - A JavaScript string is a [string]; a character is one code unit below
      256.
    - An object used as a dictionary ([Record<string, _>]) is a [gmap string _].
      An absent property reads as [None] ([undefined]); property names that
      [Object.prototype] would supply are outside the name space considered.
    - React state is passed explicitly.  A handler's functional updaters are
      applied to the state they receive; an effect is a function of the state
      of the render that created it.
    - What an external collaborator answers (the remote service, a failing
      templating engine, the previewer) is an argument of the handler.
    - The templating engine is seen through two views of a document, its
      parts before and its pieces after rendering, and through the object
      it hands to a null getter ([TemplatingEngine]). *)

From Stdlib Require Import ZArith Ascii String.
From stdpp Require Import gmap strings list fin_maps pretty.

Local Open Scope string_scope.
Set Warnings "-clear-no-such-hyp".

(** ** JavaScript strings and numbers *)

Module Js.

(** The code units below 256 that [String.prototype.trim] strips:
    TAB, LF, VT, FF, CR, SPACE and NO-BREAK SPACE. *)
Definition is_white_space (c : ascii) : bool :=
  let n := nat_of_ascii c in
  ((9 <=? n)%nat && (n <=? 13)%nat) || (n =? 32)%nat || (n =? 160)%nat.

Fixpoint trimStart (s : string) : string :=
  match s with
  | EmptyString => EmptyString
  | String c s' => if is_white_space c then trimStart s' else s
  end.

Fixpoint trimEnd (s : string) : string :=
  match s with
  | EmptyString => EmptyString
  | String c s' =>
      match trimEnd s' with
      | EmptyString =>
          if is_white_space c then EmptyString else String c EmptyString
      | r => String c r
      end
  end.

Definition trim (s : string) : string := trimEnd (trimStart s).

Fixpoint repeat (c : ascii) (n : nat) : string :=
  match n with
  | O => EmptyString
  | S n' => String c (repeat c n')
  end.

(** [s.padStart(target, fill)] for a one-character [fill]. *)
Definition padStart (target : nat) (fill : ascii) (s : string) : string :=
  repeat fill (target - String.length s) +:+ s.

(** [String(n)] for a natural number [n]: its decimal digits. *)
Definition String_of (n : nat) : string := pretty n.

(** A value of type [number], as far as indexing an array can tell:
    an integer, a finite number strictly between [floor] and [floor + 1],
    or a number that fails every comparison it meets here ([NaN]; the
    infinities fail the range test of the adapter as well). *)
Inductive number :=
| Int (z : Z)
| Frac (floor : Z)
| NaN.

(** [x - 1]. *)
Definition pred (x : number) : number :=
  match x with
  | Int z => Int (z - 1)
  | Frac f => Frac (f - 1)
  | NaN => NaN
  end.

(** [x >= 0 && x < len], with [len] the length of an array. *)
Definition in_range (x : number) (len : nat) : bool :=
  match x with
  | Int z | Frac z => bool_decide (0 ≤ z)%Z && bool_decide (z < Z.of_nat len)%Z
  | NaN => false
  end.

(** [arr[x]]: only an integer in range is an index that holds an element. *)
Definition index {A} (arr : list A) (x : number) : option A :=
  match x with
  | Int z => if bool_decide (0 ≤ z)%Z then arr !! Z.to_nat z else None
  | Frac _ | NaN => None
  end.

(** [!key] for a key that is a string or [undefined]. *)
Definition falsy (key : option string) : bool :=
  match key with
  | None => true
  | Some s => bool_decide (s = "")
  end.

End Js.

(** ** Data model *)

Record Delims := { d_start : string; d_end : string }.

Definition DELIMS : Delims := {| d_start := "["; d_end := "]" |}.

(** [`${DELIMS.start}${t}${DELIMS.end}`] *)
Definition wrap (t : string) : string := d_start DELIMS +:+ t +:+ d_end DELIMS.

(** [type Placeholder = { name; description; value }] *)
Record Placeholder := {
  ph_name : string;
  ph_description : string;
  ph_value : string
}.

(** [{ ...ph, value: v }] *)
Definition with_value (v : string) (ph : Placeholder) : Placeholder :=
  {| ph_name := ph_name ph; ph_description := ph_description ph; ph_value := v |}.

(** [type StructuredUpdate = { name?: string; order?: number; value: string }] *)
Record StructuredUpdate := {
  u_name : option string;
  u_order : option Js.number;
  u_value : string
}.

Abbreviation Store := (gmap string Placeholder).
Abbreviation Drafts := (gmap string string).

(** ** Update protocol adapter *)

(** The key an update record resolves to, as both [applyStructuredUpdates]
    and the chat callback compute it:
<<
    let key = u.name?.trim();
    if (!key && typeof u.order === "number") {
      const idx = u.order - 1;
      if (idx >= 0 && idx < orderedNames.length) key = orderedNames[idx];
    }
>> *)
Definition resolveKey (orderedNames : list string) (u : StructuredUpdate)
  : option string :=
  let key := Js.trim <$> u_name u in
  if Js.falsy key then
    match u_order u with
    | Some order =>
        let idx := Js.pred order in
        if Js.in_range idx (length orderedNames)
        then Js.index orderedNames idx
        else key
    | None => key
    end
  else key.

(** One turn of the [updates.forEach] loop of [applyStructuredUpdates]:
<<
    if (!key || !next[key]) return;
    next[key] = { ...next[key], value: u.value ?? "" };
>> *)
Definition applyUpdate (orderedNames : list string) (next : Store)
    (u : StructuredUpdate) : Store :=
  let key := resolveKey orderedNames u in
  match key with
  | Some k =>
      if Js.falsy key then next
      else match next !! k with
           | Some ph => <[k := with_value (u_value u) ph]> next
           | None => next
           end
  | None => next
  end.

(** The state updater that [applyStructuredUpdates] hands to
    [setPlaceholders]; with an empty batch no updater is queued at all. *)
Definition applyStructuredUpdates (orderedNames : list string)
    (updates : list StructuredUpdate) (prev : Store) : Store :=
  match updates with
  | [] => prev
  | _ => foldl (applyUpdate orderedNames) prev updates
  end.

(** Whether the handler queued an updater, i.e. whether React re-renders with
    a new [placeholders] object and runs the effects that depend on it. *)
Definition queues_update (updates : list StructuredUpdate) : bool :=
  match updates with [] => false | _ => true end.

(** ** The templating engine, at its interface *)

(** The engine's reading of a document: literal text and delimited tags, in
    document order. *)
Inductive part :=
| Text (s : string)
| Tag (t : string).

Abbreviation Template := (list part).

(** A rendered document: the text the engine kept and, where a tag stood,
    the string it put there. *)
Inductive piece :=
| Kept (s : string)
| Put (v : string).

Abbreviation Buffer := (list piece).

(** The object by which the engine describes a tag to a null getter.  Of
    its properties the code reads [tag]. *)
Record Part := { part_tag : option string }.

(** The engine is no part of this repository; what the code relies on is
    kept as an interface.  [placeholder_part t] is the object the engine
    hands to [nullGetter] for the tag [t]. *)
Class TemplatingEngine := { placeholder_part : string → Part }.

(** An engine as the null getters of this file expect it: the part of a tag
    carries the text of the tag as its [tag] property. *)
Definition tag_engine : TemplatingEngine :=
  {| placeholder_part t := {| part_tag := Some t |} |}.

(** An engine whose parts have no [tag] property. *)
Definition bare_engine : TemplatingEngine :=
  {| placeholder_part _ := {| part_tag := None |} |}.

Section Editor.
Context {engine : TemplatingEngine}.


Section Engine.
Context {S : Type}.

(** [parser(tag).get(scope)], with the state the closure captures. *)
Variable get : string → S → option string * S.
(** [nullGetter(part)], asked when [get] answers [undefined]. *)
Variable nullGetter : Part → string.

(** [doc.render(data)]: tags are evaluated first to last. *)
Fixpoint render (doc : Template) (st : S) : Buffer * S :=
  match doc with
  | [] => ([], st)
  | Text s :: doc' =>
      let '(out, st') := render doc' st in (Kept s :: out, st')
  | Tag t :: doc' =>
      let '(v, st1) := get t st in
      let '(out, st2) := render doc' st1 in
      (Put (default (nullGetter (placeholder_part t)) v) :: out, st2)
  end.
End Engine.

(** The [nullGetter] of all three engine set-ups:
<<
    const t = part?.tag ?? "";
    return `${DELIMS.start}${t}${DELIMS.end}`;
>> *)
Definition nullGetter (part : Part) : string :=
  wrap (default "" (part_tag part)).

(** What is left of [s] without a final [d_end DELIMS]. *)
Fixpoint strip_end (s : string) : option string :=
  match s with
  | EmptyString => None
  | String c EmptyString =>
      if bool_decide (String c EmptyString = d_end DELIMS)
      then Some EmptyString else None
  | String c s' => String c <$> strip_end s'
  end.

(** The tag a delimited string spells: [unwrap "[t]" = Some "t"]. *)
Definition unwrap (s : string) : option string :=
  match s with
  | String c s' =>
      if bool_decide (String c EmptyString = d_start DELIMS)
      then strip_end s' else None
  | EmptyString => None
  end.

(** [new Docxtemplater(new PizZip(buffer), { delimiters: DELIMS })] reading a
    rendered document again: a delimited string that was put in place of a
    tag is a tag, everything else is text.  Names are taken to be free of the
    delimiter characters. *)
Definition lex (buffer : Buffer) : Template :=
  (λ p, match p with
        | Kept s => Text s
        | Put v => match unwrap v with Some t => Tag t | None => Text v end
        end) <$> buffer.

(** The raw tokens of a document, in order of appearance. *)
Fixpoint tokens (doc : Template) : list string :=
  match doc with
  | [] => []
  | Text _ :: doc' => tokens doc'
  | Tag t :: doc' => t :: tokens doc'
  end.

(** The strings that stand where the tags stood, in order. *)
Fixpoint puts (b : Buffer) : list string :=
  match b with
  | [] => []
  | Kept _ :: b' => puts b'
  | Put v :: b' => v :: puts b'
  end.

(** [Object.keys(inspectModule.getAllTags())]: every tag once. *)
Definition getAllTags (doc : Template) : list string := remove_dups (tokens doc).

(** ** Occurrence binder *)

(** [`placeholder_${String(idx + 1).padStart(3, "0")}`] *)
Definition fallbackName (idx : nat) : string :=
  "placeholder_" +:+ Js.padStart 3 "0" (Js.String_of (idx + 1)).

(** [orderedNewNames[idx] ?? `placeholder_...`] *)
Definition nextName (orderedNewNames : list string) (idx : nat) : string :=
  default (fallbackName idx) (orderedNewNames !! idx).

(** The [get] of the binder's parser; [idx] is the counter it captures:
<<
    const next = orderedNewNames[idx] ?? `placeholder_...`;
    idx += 1;
    return `${DELIMS.start}${next}${DELIMS.end}`;
>> *)
Definition occurrence_get (orderedNewNames : list string)
    (tag : string) (idx : nat) : option string * nat :=
  let next := nextName orderedNewNames idx in
  (Some (wrap next), idx + 1)%nat.

Definition renameDocxByOccurrence (doc : Template)
    (orderedNewNames : list string) : Buffer :=
  (render (occurrence_get orderedNewNames) nullGetter doc 0%nat).1.

(** ** Component state *)

Inductive Toast :=
| ToastSuccess (title description : string)
| ToastError (title description : string)
| ToastInfo (title description : string).

(** What a [catch] clause receives. *)
Inductive thrown :=
| Error (message : string)
| NotAnError.

(** [e instanceof Error ? e.message : fallback] *)
Definition errorMessage (e : thrown) (fallback : string) : string :=
  match e with
  | Error message => message
  | NotAnError => fallback
  end.

(** The result of awaiting an external call. *)
Inductive outcome (A : Type) :=
| Returned (a : A)
| Thrown (e : thrown).
Arguments Returned {A} a.
Arguments Thrown {A} e.

(** The [useState] cells of [DocPlaceholderEditor] that the engine touches,
    the content of the preview container ([None] when its [innerHTML] is
    empty) and the notifications shown so far. *)
Record State := {
  placeholders : Store;
  fileName : option string;
  templateBuffer : option Buffer;
  orderedNames : list string;
  documentId : option string;
  draftValues : Drafts;
  previewView : option Buffer;
  toasts : list Toast
}.

Definition setPlaceholders (f : Store → Store) (st : State) : State :=
  {| placeholders := f (placeholders st); fileName := fileName st;
     templateBuffer := templateBuffer st; orderedNames := orderedNames st;
     documentId := documentId st; draftValues := draftValues st;
     previewView := previewView st; toasts := toasts st |}.

Definition setDraftValues (f : Drafts → Drafts) (st : State) : State :=
  {| placeholders := placeholders st; fileName := fileName st;
     templateBuffer := templateBuffer st; orderedNames := orderedNames st;
     documentId := documentId st; draftValues := f (draftValues st);
     previewView := previewView st; toasts := toasts st |}.

Definition setPreviewView (v : option Buffer) (st : State) : State :=
  {| placeholders := placeholders st; fileName := fileName st;
     templateBuffer := templateBuffer st; orderedNames := orderedNames st;
     documentId := documentId st; draftValues := draftValues st;
     previewView := v; toasts := toasts st |}.

(** [toast.success], [toast.error], [toast.info] *)
Definition toast (t : Toast) (st : State) : State :=
  {| placeholders := placeholders st; fileName := fileName st;
     templateBuffer := templateBuffer st; orderedNames := orderedNames st;
     documentId := documentId st; draftValues := draftValues st;
     previewView := previewView st; toasts := toasts st ++ [t] |}.

(** The initial values of the [useState] cells. *)
Definition initialState : State :=
  {| placeholders := ∅; fileName := None; templateBuffer := None;
     orderedNames := []; documentId := None; draftValues := ∅;
     previewView := None; toasts := [] |}.

(** ** Draft reconciler *)

(** [setDraftValues((prev) => ({ ...prev, [name]: value }))] *)
Definition onDraftChange (name value : string) (st : State) : State :=
  setDraftValues (λ prev, <[name := value]> prev) st.

(** [(draftValues[name] ?? "") !== (placeholders[name]?.value ?? "")] *)
Definition isDirty (placeholders : Store) (draftValues : Drafts)
    (name : string) : bool :=
  bool_decide (default "" (draftValues !! name)
               ≠ default "" (ph_value <$> placeholders !! name)).

(** The updater of the draft effect.  [placeholders] and [draftValues] are
    those of the render that created the effect ([isDirty] closes over
    them); [prev] is the draft map the updater receives:
<<
    const merged = { ...prev };
    Object.entries(placeholders).forEach(([k, ph]) => {
      if (!prev.hasOwnProperty(k) || !isDirty(k)) merged[k] = ph.value ?? "";
    });
>> *)
Definition reconcile (placeholders : Store) (draftValues prev : Drafts) : Drafts :=
  map_fold
    (λ k ph merged,
       if negb (bool_decide (is_Some (prev !! k)))
          || negb (isDirty placeholders draftValues k)
       then <[k := ph_value ph]> merged
       else merged)
    prev placeholders.

(** [useEffect(() => setDraftValues(...), [placeholders])], run after a
    render in which [placeholders] is a new object. *)
Definition draftEffect (st : State) : State :=
  setDraftValues (reconcile (placeholders st) (draftValues st)) st.

(** The draft updater of the chat callback:
<<
    response.updates.forEach((u) => { ...; if (k) next[k] = u.value ?? ""; });
>> *)
Definition chatDraft (orderedNames : list string) (next : Drafts)
    (u : StructuredUpdate) : Drafts :=
  let k := resolveKey orderedNames u in
  match k with
  | Some key => if Js.falsy k then next else <[key := u_value u]> next
  | None => next
  end.

(** [onChatResponse]: the agent's batch is committed and mirrored into the
    drafts; both updaters are applied before the next render. *)
Definition onChatResponse (updates : list StructuredUpdate) (st : State) : State :=
  let names := orderedNames st in
  setDraftValues (λ prev, foldl (chatDraft names) prev updates)
    (setPlaceholders (applyStructuredUpdates names updates) st).

(** The agent push as the user sees it: the callback, the render, and the
    draft effect when the callback queued a store updater. *)
Definition agentPush (updates : list StructuredUpdate) (st : State) : State :=
  let st' := onChatResponse updates st in
  if queues_update updates then draftEffect st' else st'.

(** [applyOne] up to its [await]: the local commit. *)
Definition applyOne_local (name : string) (st : State) : State :=
  let value := default "" (draftValues st !! name) in
  let update := {| u_name := Some name; u_order := None; u_value := value |} in
  setDraftValues (λ prev, <[name := value]> prev)
    (setPlaceholders (applyStructuredUpdates (orderedNames st) [update]) st).

(** [if (documentId)] *)
Definition truthy (s : option string) : bool := negb (Js.falsy s).

(** [applyOne] from its [await] on: what [updatePlaceholders] answered. *)
Definition applyOne_sync (name : string) (sync : outcome unit) (st : State) : State :=
  if truthy (documentId st) then
    match sync with
    | Returned _ =>
        toast (ToastSuccess "Placeholder updated" (name +:+ " has been saved")) st
    | Thrown e =>
        toast (ToastError "Update failed"
                 (errorMessage e "Failed to update placeholder")) st
    end
  else st.

(** [applyOne(name)]: the local commit, the render with its draft effect
    while the request is pending, then the answer. *)
Definition applyOne (name : string) (sync : outcome unit) (st : State) : State :=
  applyOne_sync name sync (draftEffect (applyOne_local name st)).

(** ** Upload *)

(** [interface Placeholder { order; name; description }] of the service. *)
Record ApiPlaceholder := {
  api_order : Z;
  api_name : string;
  api_description : string
}.

Record UploadFileResponse := {
  document_id : string;
  filename : string;
  message : string;
  res_placeholders : list ApiPlaceholder
}.

(** The chosen file: its name and its content as the engine reads it. *)
Record File := {
  file_name : string;
  file_content : Template
}.

(** [Object.fromEntries(phFromAPI.map((s) => [s.name, s.description || ""]))]:
    a later entry replaces an earlier one of the same name. *)
Definition descByName (phFromAPI : list ApiPlaceholder) : gmap string string :=
  foldl (λ m s, <[api_name s := api_description s]> m) ∅ phFromAPI.

(** [Object.keys(tags).forEach((key) => { extracted[key] = {...}; })] *)
Definition seedPlaceholders (desc : gmap string string) (tags : list string) : Store :=
  foldl
    (λ extracted key,
       <[key := {| ph_name := key;
                   ph_description := default "" (desc !! key);
                   ph_value := "" |}]> extracted)
    ∅ tags.

(** [Object.fromEntries(Object.entries(extracted).map(([k, ph]) => [k, ph.value ?? ""]))] *)
Definition seedDrafts (extracted : Store) : Drafts := ph_value <$> extracted.

(** The [try] block of [handleFileUpload] once [uploadFile] has answered
    [res]: every cell of the session is replaced. *)
Definition uploaded (file : File) (res : UploadFileResponse) (st : State) : State :=
  let phFromAPI := res_placeholders res in
  let orderedNewNames := api_name <$> phFromAPI in
  let renamedBuffer := renameDocxByOccurrence (file_content file) orderedNewNames in
  let tags := getAllTags (lex renamedBuffer) in
  let extracted := seedPlaceholders (descByName phFromAPI) tags in
  {| placeholders := extracted;
     fileName := Some (file_name file);
     templateBuffer := Some renamedBuffer;
     orderedNames := orderedNewNames;
     documentId := Some (document_id res);
     draftValues := seedDrafts extracted;
     previewView := previewView st;
     toasts := toasts st ++
       [ToastSuccess "File uploaded successfully!"
          ("Found " +:+ pretty (size extracted) +:+ " placeholder(s)")] |}.

Definition setFileName (n : option string) (st : State) : State :=
  {| placeholders := placeholders st; fileName := n;
     templateBuffer := templateBuffer st; orderedNames := orderedNames st;
     documentId := documentId st; draftValues := draftValues st;
     previewView := previewView st; toasts := toasts st |}.

(** [handleFileUpload] for a chosen file with the API key set; [first] and
    [retry] are the answers of the two calls of [uploadFile]. *)
Definition handleFileUpload (file : File)
    (first retry : outcome UploadFileResponse) (st : State) : State :=
  let st := setFileName (Some (file_name file)) st in
  match first with
  | Returned res => uploaded file res st
  | Thrown _ =>
      let st :=
        toast (ToastInfo "Looks like server is down due to free tier usage."
                 "This may take up to 1 minute on first upload. Please wait.") st in
      match retry with
      | Returned res => uploaded file res st
      | Thrown e =>
          toast (ToastError "Upload failed"
                   (errorMessage e "Failed to upload file")) st
      end
  end.

(** ** Document materialiser *)

(** [val.trim() !== ""] *)
Definition filled (val : string) : bool := bool_decide (Js.trim val ≠ "").

(** The substitution map of [generateFilledArrayBuffer]:
<<
    data[tag] = val.trim() !== "" ? val : `${DELIMS.start}${tag}${DELIMS.end}`;
>> *)
Definition preview_data (placeholders : Store) : gmap string string :=
  map_fold
    (λ tag ph data,
       let val := ph_value ph in
       <[tag := if filled val then val else wrap tag]> data)
    ∅ placeholders.

(** The substitution map of [handleDownload]:
<<
    if (val.trim() !== "") data[tag] = val;
>> *)
Definition download_data (placeholders : Store) : gmap string string :=
  map_fold
    (λ tag ph data,
       let val := ph_value ph in
       if filled val then <[tag := val]> data else data)
    ∅ placeholders.

(** [parser(tag) { return { get(scope) { return scope[tag]; } }; }] *)
Definition scope_get (tag : string) (scope : gmap string string)
  : option string * gmap string string :=
  (scope !! tag, scope).

(** What the engine puts in place of [tag] when it renders with [data]. *)
Definition substitution (data : gmap string string) (tag : string) : string :=
  default (nullGetter (placeholder_part tag)) (scope_get tag data).1.

(** [doc.render(data); doc.getZip().generate(...)] on the bound template. *)
Definition fill (data : gmap string string) (template : Buffer) : Buffer :=
  (render scope_get nullGetter (lex template) data).1.

(** [generateFilledArrayBuffer]; [fault] is what the engine threw, if it
    threw. *)
Definition generateFilledArrayBuffer (fault : option thrown) (st : State)
  : option Buffer * State :=
  match templateBuffer st with
  | None => (None, st)
  | Some template =>
      let data := preview_data (placeholders st) in
      match fault with
      | None => (Some (fill data template), st)
      | Some e =>
          (None, toast (ToastError "Preview error"
                          (errorMessage e "Failed to generate preview")) st)
      end
  end.

(** The preview effect (dependencies [templateBuffer], [placeholders]); the
    container is mounted exactly when a template is loaded.  [shown] is the
    answer of [renderAsync]:
<<
    previewRef.current.innerHTML = "";
    const filled = generateFilledArrayBuffer();
    if (!filled) return;
    renderAsync(filled, previewRef.current, ...).catch(...)
>> *)
Definition previewEffect (fault : option thrown) (shown : outcome unit)
    (st : State) : State :=
  match templateBuffer st with
  | None => st
  | Some _ =>
      let st := setPreviewView None st in
      match generateFilledArrayBuffer fault st with
      | (None, st') => st'
      | (Some filled, st') =>
          match shown with
          | Returned _ => setPreviewView (Some filled) st'
          | Thrown e =>
              toast (ToastError "Preview render error"
                       (errorMessage e "Failed to render preview")) st'
          end
      end
  end.

(** [handleDownload]: the bytes handed to [saveAs], if any, and the state. *)
Definition handleDownload (fault : option thrown) (st : State)
  : option Buffer * State :=
  match templateBuffer st with
  | None => (None, st)
  | Some template =>
      let data := download_data (placeholders st) in
      match fault with
      | None =>
          (Some (fill data template),
           toast (ToastSuccess "Document downloaded"
                    "Your completed document has been downloaded") st)
      | Some e =>
          (None, toast (ToastError "Download failed"
                          (errorMessage e "Failed to generate document")) st)
      end
  end.

(** ** Vocabulary of the statements *)

(** The record [u] resolves to the name [k]: its key is [k] and passes the
    [!key] test. *)
Definition resolvesTo (orderedNames : list string) (k : string)
    (u : StructuredUpdate) : Prop :=
  resolveKey orderedNames u = Some k ∧ k ≠ "".

#[global] Instance resolvesTo_dec orderedNames k u :
  Decision (resolvesTo orderedNames k u).
Proof. unfold resolvesTo. apply _. Defined.

(** The value of the last record of a batch that resolves to [k], if any. *)
Definition lastValue (orderedNames : list string) (k : string)
    (updates : list StructuredUpdate) : option string :=
  last (u_value <$> filter (resolvesTo orderedNames k) updates).


(** Every name of the store has a draft: the shape of the state in which an
    upload leaves the component and every handler keeps it. *)
Definition drafts_cover (st : State) : Prop :=
  ∀ k, is_Some (placeholders st !! k) → is_Some (draftValues st !! k).

(** A rendered piece stands where a part of the source stood: text is kept
    as it was, a tag has been replaced. *)
Definition in_place_of (p : part) (q : piece) : Prop :=
  match p, q with
  | Text s, Kept s' => s = s'
  | Tag _, Put _ => True
  | _, _ => False
  end.



(** ** Counters of the drawer *)

(** [Object.keys(placeholders).length] *)
Definition totalCount (placeholders : Store) : nat := size placeholders.

(** [Object.values(placeholders).filter((p) => (p?.value ?? "").trim() !== "").length] *)
Definition filledCount (placeholders : Store) : nat :=
  length (filter (λ p, filled (ph_value p) = true) (map_to_list placeholders).*2).

(** The colour of the badge:
    [filledCount === totalCount && totalCount > 0 ? "success" : "primary"]. *)
Definition badgeSuccess (placeholders : Store) : bool :=
  bool_decide (filledCount placeholders = totalCount placeholders)
  && bool_decide (0 < totalCount placeholders)%nat.

(** ** Name of the downloaded file *)

(** A character the regular expression flag [i] lets match the letter
    [lower], whose capital is [upper]. *)
Definition letter (lower upper c : ascii) : bool :=
  bool_decide (c = lower) || bool_decide (c = upper).

(** The whole of [s] matches [\.docx] without regard to case. *)
Definition is_docx (s : string) : bool :=
  match s with
  | String c0 (String c1 (String c2 (String c3 (String c4 EmptyString)))) =>
      bool_decide (c0 = "."%char) && letter "d" "D" c1 && letter "o" "O" c2
      && letter "c" "C" c3 && letter "x" "X" c4
  | _ => false
  end.

(** [name.replace(/\.docx$/i, "-filled.docx")]: the pattern can only match
    the last five characters. *)
Fixpoint replaceDocx (name : string) : string :=
  if is_docx name then "-filled.docx"
  else match name with
       | EmptyString => EmptyString
       | String c name' => String c (replaceDocx name')
       end.

(** [fileName ? fileName.replace(...) : "document-filled.docx"] *)
Definition downloadName (fileName : option string) : string :=
  match fileName with
  | Some name => if bool_decide (name = "") then "document-filled.docx"
                 else replaceDocx name
  | None => "document-filled.docx"
  end.

(** [handleDownload] with the file it hands to [saveAs]: name and bytes. *)
Definition handleDownload_saved (fault : option thrown) (st : State)
  : option (string * Buffer) * State :=
  let '(out, st') := handleDownload fault st in
  ((λ bytes, (downloadName (fileName st), bytes)) <$> out, st').

(** ** Keyboard and button guards of a placeholder field *)

(** The check button is [disabled={!dirty}] and Enter applies only
    [if (e.key === "Enter" && dirty)]: a request to apply a field. *)
Definition requestApply (name : string) (sync : outcome unit) (st : State) : State :=
  if isDirty (placeholders st) (draftValues st) name
  then applyOne name sync st
  else st.

(** ** API key *)

(** The cells that hold the key, the dialog and its input, the item of
    [localStorage] under [API_KEY_STORAGE_KEY], and the notifications the
    key handlers raise. *)
Record KeyState := {
  openaiApiKey : string;
  apiKeyDialogOpen : bool;
  apiKeyInput : string;
  storedKey : option string;
  keyToasts : list Toast
}.

(** The first render, over whatever the browser has stored. *)
Definition initialKeyState (stored : option string) : KeyState :=
  {| openaiApiKey := ""; apiKeyDialogOpen := false; apiKeyInput := "";
     storedKey := stored; keyToasts := [] |}.

(** The effect run on mount:
<<
    const storedKey = localStorage.getItem(API_KEY_STORAGE_KEY);
    if (storedKey) { setOpenaiApiKey(storedKey); setApiKeyInput(storedKey); }
    else { setApiKeyDialogOpen(true); }
>> *)
Definition loadApiKey (ks : KeyState) : KeyState :=
  if truthy (storedKey ks) then
    {| openaiApiKey := default "" (storedKey ks);
       apiKeyDialogOpen := apiKeyDialogOpen ks;
       apiKeyInput := default "" (storedKey ks);
       storedKey := storedKey ks; keyToasts := keyToasts ks |}
  else
    {| openaiApiKey := openaiApiKey ks; apiKeyDialogOpen := true;
       apiKeyInput := apiKeyInput ks;
       storedKey := storedKey ks; keyToasts := keyToasts ks |}.

(** [onChange={(e) => setApiKeyInput(e.target.value)}] *)
Definition onApiKeyInput (value : string) (ks : KeyState) : KeyState :=
  {| openaiApiKey := openaiApiKey ks; apiKeyDialogOpen := apiKeyDialogOpen ks;
     apiKeyInput := value;
     storedKey := storedKey ks; keyToasts := keyToasts ks |}.

Definition handleApiKeySave (ks : KeyState) : KeyState :=
  let trimmedKey := Js.trim (apiKeyInput ks) in
  if bool_decide (trimmedKey = "") then
    {| openaiApiKey := openaiApiKey ks; apiKeyDialogOpen := apiKeyDialogOpen ks;
       apiKeyInput := apiKeyInput ks; storedKey := storedKey ks;
       keyToasts := keyToasts ks ++
         [ToastError "Invalid API key" "Please enter a valid OpenAI API key"] |}
  else
    {| openaiApiKey := trimmedKey; apiKeyDialogOpen := false;
       apiKeyInput := apiKeyInput ks; storedKey := Some trimmedKey;
       keyToasts := keyToasts ks ++
         [ToastSuccess "API key saved"
            "Your OpenAI API key has been saved locally"] |}.

Definition handleApiKeyDialogOpen (ks : KeyState) : KeyState :=
  {| openaiApiKey := openaiApiKey ks; apiKeyDialogOpen := true;
     apiKeyInput := openaiApiKey ks;
     storedKey := storedKey ks; keyToasts := keyToasts ks |}.

(** Only allowed when a key exists. *)
Definition handleApiKeyDialogClose (ks : KeyState) : KeyState :=
  if bool_decide (openaiApiKey ks = "") then ks
  else
    {| openaiApiKey := openaiApiKey ks; apiKeyDialogOpen := false;
       apiKeyInput := openaiApiKey ks;
       storedKey := storedKey ks; keyToasts := keyToasts ks |}.

(** The key pressed in the dialog's field:
    [if (e.key === "Enter" && apiKeyInput.trim()) handleApiKeySave()]. *)
Definition onApiKeyEnter (ks : KeyState) : KeyState :=
  if bool_decide (Js.trim (apiKeyInput ks) = "") then ks else handleApiKeySave ks.

(** The whole of [handleFileUpload], from the change event of the file
    input: nothing without a file, the dialog without a key, the upload
    otherwise. *)
Definition onFileChosen (files : list File)
    (first retry : outcome UploadFileResponse)
    (ks : KeyState) (st : State) : KeyState * State :=
  match files with
  | [] => (ks, st)
  | file :: _ =>
      if bool_decide (openaiApiKey ks = "") then
        ({| openaiApiKey := openaiApiKey ks; apiKeyDialogOpen := true;
            apiKeyInput := apiKeyInput ks;
            storedKey := storedKey ks; keyToasts := keyToasts ks |}, st)
      else (ks, handleFileUpload file first retry st)
  end.

(** What the user can do to the key. *)
Inductive KeyEvent :=
| TypeKey (value : string)
| SaveKey
| EnterKey
| OpenKeyDialog
| CloseKeyDialog
| ChooseFileWithoutUpload.

(** One event; choosing a file matters to the key cells only when there is
    no key. *)
Definition keyStep (ks : KeyState) (ev : KeyEvent) : KeyState :=
  match ev with
  | TypeKey value => onApiKeyInput value ks
  | SaveKey => handleApiKeySave ks
  | EnterKey => onApiKeyEnter ks
  | OpenKeyDialog => handleApiKeyDialogOpen ks
  | CloseKeyDialog => handleApiKeyDialogClose ks
  | ChooseFileWithoutUpload =>
      if bool_decide (openaiApiKey ks = "") then
        {| openaiApiKey := openaiApiKey ks; apiKeyDialogOpen := true;
           apiKeyInput := apiKeyInput ks;
           storedKey := storedKey ks; keyToasts := keyToasts ks |}
      else ks
  end.

(** The key cells after mounting over [stored] and a run of events. *)
Definition keySession (stored : option string) (events : list KeyEvent) : KeyState :=
  foldl keyStep (loadApiKey (initialKeyState stored)) events.

(** ** Chat ([components/Chat.tsx]) *)

Inductive Role := User | Assistant.

(** [interface ChatMessage]; a timestamp is the reading of the clock. *)
Record ChatMessage := {
  msg_id : string;
  msg_role : Role;
  msg_content : string;
  msg_timestamp : Z;
  msg_updates : option (list StructuredUpdate)
}.

(** [interface AgentMessageResponse { message; updates }] *)
Record AgentMessageResponse := {
  agent_message : string;
  agent_updates : list StructuredUpdate
}.

(** What the clock says when a message is built: [Date.now()] and
    [new Date()]. *)
Record Clock := { clock_now : Z; clock_date : Z }.

(** The [useState] cells of [Chat]. *)
Record ChatCells := {
  chat_message : string;
  isLoading : bool;
  chats : list ChatMessage
}.

(** The component with what surrounds it: its [documentId] prop, the
    module-level [chatStore] and the editor its callback acts on (the
    toaster is the editor's). *)
Record Session := {
  docId : option string;
  cells : ChatCells;
  chatStore : gmap string (list ChatMessage);
  editor : State
}.

(** [currentChats]:
    [if (!documentId) return []; return chatStore.get(documentId) || [];] *)
Definition currentChats (documentId : option string)
    (store : gmap string (list ChatMessage)) : list ChatMessage :=
  match documentId with
  | Some id => if bool_decide (id = "") then [] else default [] (store !! id)
  | None => []
  end.

(** The component is mounted with the prop [documentId]: fresh cells, then
    the effect [setChats(currentChats)]. *)
Definition mountChat (documentId : option string) (s : Session) : Session :=
  {| docId := documentId;
     cells := {| chat_message := ""; isLoading := false;
                 chats := currentChats documentId (chatStore s) |};
     chatStore := chatStore s; editor := editor s |}.

(** The prop [documentId] changes: the effect [setChats(currentChats)]. *)
Definition switchDocument (documentId : option string) (s : Session) : Session :=
  {| docId := documentId;
     cells := {| chat_message := chat_message (cells s);
                 isLoading := isLoading (cells s);
                 chats := currentChats documentId (chatStore s) |};
     chatStore := chatStore s; editor := editor s |}.

(** [onChange={(e) => setMessage(e.target.value)}] *)
Definition onMessage (text : string) (s : Session) : Session :=
  {| docId := docId s;
     cells := {| chat_message := text; isLoading := isLoading (cells s);
                 chats := chats (cells s) |};
     chatStore := chatStore s; editor := editor s |}.

(** The guard of [handleSend] lets the request through:
    [!(!message.trim() || !documentId || !openaiApiKey || isLoading)]. *)
Definition sendable (openaiApiKey : string) (s : Session) : bool :=
  negb (bool_decide (Js.trim (chat_message (cells s)) = ""))
  && truthy (docId s)
  && negb (bool_decide (openaiApiKey = ""))
  && negb (isLoading (cells s)).

(** The message of the user, from the input as it stands. *)
Definition userMessage (asked : Clock) (s : Session) : ChatMessage :=
  {| msg_id := pretty (clock_now asked); msg_role := User;
     msg_content := Js.trim (chat_message (cells s));
     msg_timestamp := clock_date asked; msg_updates := None |}.

(** [handleSend] up to its [await], the guard passed: the message of the
    user is shown and stored, the input is emptied, the spinner is on. *)
Definition sendBegin (asked : Clock) (s : Session) : Session :=
  let updatedChats := (chats (cells s) ++ [userMessage asked s])%list in
  {| docId := docId s;
     cells := {| chat_message := ""; isLoading := true; chats := updatedChats |};
     chatStore := <[default "" (docId s) := updatedChats]> (chatStore s);
     editor := editor s |}.

(** The message that stands for the answer: the reply, or the error. *)
Definition answerMessage (answered : Clock) (reply : outcome AgentMessageResponse)
  : ChatMessage :=
  match reply with
  | Returned response =>
      {| msg_id := pretty (clock_now answered + 1)%Z; msg_role := Assistant;
         msg_content := agent_message response;
         msg_timestamp := clock_date answered;
         msg_updates := Some (agent_updates response) |}
  | Thrown e =>
      {| msg_id := pretty (clock_now answered + 1)%Z; msg_role := Assistant;
         msg_content := "Error: " +:+ errorMessage e "Failed to send message";
         msg_timestamp := clock_date answered; msg_updates := None |}
  end.

(** [handleSend] from its [await] on.  [documentId] and [updatedChats] are
    those of the call; [onChatResponse] is the prop. *)
Definition sendEnd (documentId : string) (updatedChats : list ChatMessage)
    (onChatResponse : option (AgentMessageResponse → State → State))
    (answered : Clock) (reply : outcome AgentMessageResponse)
    (s : Session) : Session :=
  let finalChats := (updatedChats ++ [answerMessage answered reply])%list in
  {| docId := docId s;
     cells := {| chat_message := chat_message (cells s); isLoading := false;
                 chats := finalChats |};
     chatStore := <[documentId := finalChats]> (chatStore s);
     editor :=
       match reply with
       | Returned response =>
           let ed := match onChatResponse with
                     | Some callback => callback response (editor s)
                     | None => editor s
                     end in
           match agent_updates response with
           | [] => ed
           | updates =>
               toast (ToastSuccess "AI updated placeholders"
                        (pretty (length updates)
                         +:+ " placeholder(s) have been updated")) ed
           end
       | Thrown e =>
           toast (ToastError "Chat error"
                    (errorMessage e "Failed to send message")) (editor s)
       end |}.

(** A whole round of [handleSend], nothing happening while it waits. *)
Definition handleSend (openaiApiKey : string)
    (onChatResponse : option (AgentMessageResponse → State → State))
    (asked answered : Clock) (reply : outcome AgentMessageResponse)
    (s : Session) : Session :=
  if sendable openaiApiKey s then
    let pending := sendBegin asked s in
    sendEnd (default "" (docId s)) (chats (cells pending))
      onChatResponse answered reply pending
  else s.

(** The prop the editor passes: [onChatResponse] followed by the render
    and its effects. *)
Definition editorCallback (response : AgentMessageResponse) (st : State) : State :=
  agentPush (agent_updates response) st.

(** What happens to a mounted chat. *)
Inductive ChatEvent :=
| Remount (documentId : option string)
| Switch (documentId : option string)
| TypeMessage (text : string)
| SendMessage (openaiApiKey : string) (asked answered : Clock)
    (reply : outcome AgentMessageResponse).

Definition chatStep (s : Session) (ev : ChatEvent) : Session :=
  match ev with
  | Remount documentId => mountChat documentId s
  | Switch documentId => switchDocument documentId s
  | TypeMessage text => onMessage text s
  | SendMessage key asked answered reply =>
      handleSend key (Some editorCallback) asked answered reply s
  end.

(** The page is loaded: the store is a new [Map], the chat is mounted. *)
Definition openSession (documentId : option string) (st : State) : Session :=
  mountChat documentId
    {| docId := None;
       cells := {| chat_message := ""; isLoading := false; chats := [] |};
       chatStore := ∅; editor := st |}.


(** The record [u] with its name trimmed by the sender. *)
Definition trimName (u : StructuredUpdate) : StructuredUpdate :=
  {| u_name := Js.trim <$> u_name u; u_order := u_order u; u_value := u_value u |}.

(** What holds of the key cells at every moment after mounting. *)
Definition key_invariant (ks : KeyState) : Prop :=
  (apiKeyDialogOpen ks = false → openaiApiKey ks ≠ "")
  ∧ (openaiApiKey ks ≠ "" → storedKey ks = Some (openaiApiKey ks)).

(** The key in use and the key in the browser are in trimmed form. *)
Definition key_trimmed (ks : KeyState) : Prop :=
  Js.trim (openaiApiKey ks) = openaiApiKey ks
  ∧ (∀ k, storedKey ks = Some k → Js.trim k = k).





End Editor.

Arguments Returned {A} a.
Arguments Thrown {A} e.

(** * Proofs *)

Section Proofs.
Context {engine : TemplatingEngine}.

(** ** Update protocol adapter: resolution and frame *)

Lemma falsy_Some (k : string) : Js.falsy (Some k) = bool_decide (k = "").
Proof. reflexivity. Qed.

(** The loop body acts on one key at most, and only on its value field. *)
Lemma applyUpdate_lookup names (next : Store) u k :
  applyUpdate names next u !! k
  = (if decide (resolvesTo names k u) then with_value (u_value u) else id)
      <$> next !! k.
Proof.
  unfold applyUpdate.
  destruct (decide (resolvesTo names k u)) as [[Hr Hne]|Hn].
  - rewrite Hr, falsy_Some, bool_decide_false by done.
    destruct (next !! k) as [ph|] eqn:Hph; [|by rewrite Hph].
    by rewrite lookup_insert_eq.
  - rewrite option_fmap_id.
    destruct (resolveKey names u) as [k'|] eqn:Hk; [|done].
    rewrite falsy_Some. case_bool_decide; [done|].
    destruct (next !! k') eqn:Hph; [|done].
    rewrite lookup_insert_ne; [done|].
    intros ->. by apply Hn.
Qed.

Lemma applyStructuredUpdates_foldl names updates (prev : Store) :
  applyStructuredUpdates names updates prev = foldl (applyUpdate names) prev updates.
Proof. by destruct updates. Qed.

Lemma lastValue_snoc names k updates u :
  lastValue names k (updates ++ [u])
  = if decide (resolvesTo names k u) then Some (u_value u)
    else lastValue names k updates.
Proof.
  unfold lastValue. rewrite filter_app, fmap_app.
  rewrite filter_cons, filter_nil. case_decide; simpl.
  - by rewrite last_snoc.
  - by rewrite app_nil_r.
Qed.

(** The whole batch, key by key: the last resolving record decides. *)
Lemma applyStructuredUpdates_lookup names updates (prev : Store) k :
  applyStructuredUpdates names updates prev !! k
  = (λ ph, default ph ((λ v, with_value v ph) <$> lastValue names k updates))
      <$> prev !! k.
Proof.
  rewrite applyStructuredUpdates_foldl.
  induction updates as [|u updates IH] using rev_ind.
  - simpl. by destruct (prev !! k).
  - rewrite foldl_app. simpl. rewrite applyUpdate_lookup, IH, lastValue_snoc.
    destruct (prev !! k) as [ph|]; [simpl|done].
    case_decide; simpl; [|done].
    by destruct (lastValue names k updates).
Qed.






Lemma resolveKey_name names u n :
  u_name u = Some n → Js.trim n ≠ "" → resolveKey names u = Some (Js.trim n).
Proof.
  intros Hn Hne. unfold resolveKey. rewrite Hn. simpl.
  by rewrite bool_decide_false.
Qed.






(** ** Occurrence binder *)



Section Binder.
Variable names : list string.

Local Abbreviation run doc idx :=
  (render (occurrence_get names) nullGetter doc idx).1.

Lemma run_text s doc idx : run (Text s :: doc) idx = Kept s :: run doc idx.
Proof. simpl. by destruct (render _ _ doc idx). Qed.

Lemma run_tag t doc idx :
  run (Tag t :: doc) idx = Put (wrap (nextName names idx)) :: run doc (idx + 1).
Proof. simpl. by destruct (render _ _ doc (idx + 1)). Qed.

Lemma run_in_place doc idx : Forall2 in_place_of doc (run doc idx).
Proof.
  revert idx. induction doc as [|[s|t] doc IH]; intros idx.
  - constructor.
  - rewrite run_text. by constructor.
  - rewrite run_tag. by constructor.
Qed.

Lemma run_puts doc idx :
  puts (run doc idx) = imap (λ i _, wrap (nextName names (idx + i))) (tokens doc).
Proof.
  revert idx. induction doc as [|[s|t] doc IH]; intros idx.
  - done.
  - rewrite run_text. simpl. apply IH.
  - rewrite run_tag. simpl. rewrite Nat.add_0_r, IH. f_equal.
    apply imap_ext. intros i x _. simpl. do 2 f_equal. lia.
Qed.


End Binder.

(** C3 (occurrence binding).  The bound document keeps every piece of text
    where it was and has, in place of the i-th token (counted from 0), the
    i-th name of the list between the delimiters; past the end of the list
    the name is placeholder_ followed by i + 1 in decimal, padded with zeros
    to three digits.  Every token is given a name. *)
Theorem C3_occurrence_binding :
  ∀ (doc : Template) (names : list string),
    let out := renameDocxByOccurrence doc names in
    Forall2 in_place_of doc out
    ∧ length (puts out) = length (tokens doc)
    ∧ (∀ i raw, tokens doc !! i = Some raw →
         puts out !! i
         = Some ("[" +:+
                 match names !! i with
                 | Some name => name
                 | None =>
                     "placeholder_" +:+ Js.padStart 3 "0" (Js.String_of (i + 1))
                 end +:+ "]")).
Proof.
  intros doc names out. subst out. unfold renameDocxByOccurrence.
  split_and!.
  - apply run_in_place.
  - by rewrite run_puts, length_imap.
  - intros i raw Hraw. rewrite run_puts, list_lookup_imap, Hraw. simpl.
    unfold nextName, fallbackName. by destruct (names !! i).
Qed.

(** *** Synthetic names are pairwise distinct *)









(** ** Upload: the name universe *)







(** ** Document materialiser: preview and download agree *)







(** ** Draft reconciler *)

Lemma isDirty_false (store : Store) (drafts : Drafts) k :
  isDirty store drafts k = false
  ↔ default "" (drafts !! k) = default "" (ph_value <$> store !! k).
Proof.
  unfold isDirty. rewrite bool_decide_eq_false. split.
  - intros H. by destruct (decide (default "" (drafts !! k)
                                   = default "" (ph_value <$> store !! k))).
  - intros H Hn. done.
Qed.

Lemma guarded_fold_lookup (guard : string → bool) (prev : Drafts) (m : Store) k :
  map_fold (λ k ph (merged : Drafts),
              if guard k then <[k := ph_value ph]> merged else merged) prev m !! k
  = match m !! k with
    | Some ph => if guard k then Some (ph_value ph) else prev !! k
    | None => prev !! k
    end.
Proof.
  revert k.
  apply (map_fold_weak_ind
           (λ (merged : Drafts) (m : Store),
              ∀ k, merged !! k
                   = match m !! k with
                     | Some ph => if guard k then Some (ph_value ph) else prev !! k
                     | None => prev !! k
                     end)).
  - intros k. by rewrite lookup_empty.
  - intros i ph m' merged Hi IH k.
    destruct (decide (i = k)) as [->|Hne].
    + rewrite lookup_insert_eq.
      destruct (guard k); [by rewrite lookup_insert_eq|].
      by rewrite IH, Hi.
    + rewrite (lookup_insert_ne m') by done.
      destruct (guard i); [by rewrite lookup_insert_ne|done].
Qed.

(** The draft effect, key by key. *)
Lemma reconcile_lookup (store : Store) (drafts prev : Drafts) k :
  reconcile store drafts prev !! k
  = match store !! k with
    | Some ph =>
        if negb (bool_decide (is_Some (prev !! k))) || negb (isDirty store drafts k)
        then Some (ph_value ph)
        else prev !! k
    | None => prev !! k
    end.
Proof.
  unfold reconcile.
  apply (guarded_fold_lookup
           (λ k, negb (bool_decide (is_Some (prev !! k)))
                 || negb (isDirty store drafts k))).
Qed.

(** The effect never changes a draft that is there, as long as it is run on
    the draft map of its own render. *)
Lemma draftEffect_draft st k d :
  draftValues st !! k = Some d → draftValues (draftEffect st) !! k = Some d.
Proof.
  intros Hd. unfold draftEffect. simpl. rewrite reconcile_lookup.
  destruct (placeholders st !! k) as [ph|] eqn:Hph; [|done].
  rewrite Hd. rewrite bool_decide_true by eauto. simpl.
  destruct (isDirty (placeholders st) (draftValues st) k) eqn:Hdirty; [done|].
  apply isDirty_false in Hdirty. rewrite Hd, Hph in Hdirty. simpl in *.
  by subst d.
Qed.

Lemma draftEffect_placeholders st : placeholders (draftEffect st) = placeholders st.
Proof. done. Qed.

Lemma applyOne_sync_placeholders name sync st :
  placeholders (applyOne_sync name sync st) = placeholders st.
Proof. unfold applyOne_sync. by destruct (truthy _), sync. Qed.

Lemma applyOne_sync_draftValues name sync st :
  draftValues (applyOne_sync name sync st) = draftValues st.
Proof. unfold applyOne_sync. by destruct (truthy _), sync. Qed.

Lemma resolvesTo_named names name v k :
  resolvesTo names k {| u_name := Some name; u_order := None; u_value := v |}
  ↔ Js.trim name = k ∧ k ≠ "".
Proof.
  unfold resolvesTo, resolveKey. simpl.
  destruct (bool_decide (Js.trim name = "")); naive_solver.
Qed.

Lemma lastValue_single names k u :
  lastValue names k [u]
  = if decide (resolvesTo names k u) then Some (u_value u) else None.
Proof. unfold lastValue. rewrite filter_cons, filter_nil. by case_decide. Qed.

(** The local commit of [applyOne], key by key. *)
Lemma applyOne_local_placeholders name st k :
  placeholders (applyOne_local name st) !! k
  = (if decide (Js.trim name = k ∧ k ≠ "")
     then with_value (default "" (draftValues st !! name))
     else id) <$> placeholders st !! k.
Proof.
  unfold applyOne_local. cbn [placeholders setDraftValues setPlaceholders].
  rewrite applyStructuredUpdates_lookup, lastValue_single.
  destruct (placeholders st !! k) as [ph|]; [simpl|done].
  destruct (decide (resolvesTo _ _ _)) as [Hr|Hr];
    rewrite resolvesTo_named in Hr.
  - by rewrite decide_True.
  - by rewrite decide_False.
Qed.

Lemma applyOne_local_draftValues name st :
  draftValues (applyOne_local name st)
  = <[name := default "" (draftValues st !! name)]> (draftValues st).
Proof. done. Qed.

(** What [applyOne] leaves at the applied name, whatever the service says. *)
Lemma applyOne_at_name st name ph sync :
  placeholders st !! name = Some ph →
  Js.trim name = name → name ≠ "" →
  let draft := default "" (draftValues st !! name) in
  placeholders (applyOne name sync st) !! name = Some (with_value draft ph)
  ∧ draftValues (applyOne name sync st) !! name = Some draft.
Proof.
  intros Hph Htrim Hne draft. unfold applyOne.
  rewrite applyOne_sync_placeholders, applyOne_sync_draftValues.
  rewrite draftEffect_placeholders, applyOne_local_placeholders, Hph.
  rewrite decide_True by done. split; [done|].
  apply draftEffect_draft. rewrite applyOne_local_draftValues.
  by rewrite lookup_insert_eq.
Qed.




(** ** Preview effect *)

(** C8 (render failure), amended.  When the engine throws while the preview
    is materialised, the effect returns normally, one error notification
    titled Preview error carries the message, the placeholder store, the
    draft map, the template and the ordered names are unchanged, and the
    preview container, emptied before the engine was asked, stays empty. *)
Theorem C8_render_failure :
  ∀ (st : State) (template : Buffer) (e : thrown) (shown : outcome unit),
    templateBuffer st = Some template →
    let st' := previewEffect (Some e) shown st in
    toasts st'
    = (toasts st ++ [ToastError "Preview error"
                       (errorMessage e "Failed to generate preview")])%list
    ∧ placeholders st' = placeholders st
    ∧ draftValues st' = draftValues st
    ∧ templateBuffer st' = templateBuffer st
    ∧ orderedNames st' = orderedNames st
    ∧ previewView st' = None.
Proof.
  intros st template e shown Htpl st'. subst st'.
  unfold previewEffect, generateFilledArrayBuffer. rewrite Htpl. simpl.
  rewrite Htpl. simpl. by rewrite Htpl.
Qed.

(** ** Reconciliation of drafts with the committed store *)






(** ** Every name of the store has a draft *)







(** * Further properties of the code *)

(** ** Trimming *)

Lemma trimStart_head s :
  Js.trimStart s = ""
  ∨ ∃ c r, Js.trimStart s = String c r ∧ Js.is_white_space c = false.
Proof.
  induction s as [|c s IH]; [by left|]. simpl.
  destruct (Js.is_white_space c) eqn:Hc; [done|]. right. eauto.
Qed.

Lemma trimEnd_head c s :
  Js.is_white_space c = false → ∃ r, Js.trimEnd (String c s) = String c r.
Proof.
  intros Hc. simpl. destruct (Js.trimEnd s); rewrite ?Hc; eauto.
Qed.

Lemma trimEnd_idempotent s : Js.trimEnd (Js.trimEnd s) = Js.trimEnd s.
Proof.
  induction s as [|c s IH]; [done|]. simpl.
  destruct (Js.trimEnd s) as [|c' r] eqn:Hr.
  - destruct (Js.is_white_space c) eqn:Hc; [done|]. simpl. by rewrite Hc.
  - change (Js.trimEnd (String c (String c' r)))
      with (match Js.trimEnd (String c' r) with
            | EmptyString =>
                if Js.is_white_space c then EmptyString else String c EmptyString
            | r0 => String c r0
            end).
    by rewrite IH.
Qed.

Lemma trim_idempotent s : Js.trim (Js.trim s) = Js.trim s.
Proof.
  unfold Js.trim. destruct (trimStart_head s) as [->|(c & r & -> & Hc)]; [done|].
  destruct (trimEnd_head c r Hc) as [r' Hr]. rewrite Hr.
  assert (Js.trimStart (String c r') = String c r') as -> by (simpl; by rewrite Hc).
  by rewrite <-Hr, trimEnd_idempotent.
Qed.

(** ** The adapter: padding, composition, repetition *)

Lemma resolveKey_trimName names u :
  resolveKey names (trimName u) = resolveKey names u.
Proof.
  unfold resolveKey, trimName. simpl.
  destruct (u_name u) as [n|]; simpl; [|done]. by rewrite trim_idempotent.
Qed.

Lemma applyUpdate_trimName names (next : Store) u :
  applyUpdate names next (trimName u) = applyUpdate names next u.
Proof. unfold applyUpdate. by rewrite resolveKey_trimName. Qed.

(** White space around the names of a batch is of no consequence: a key
    found by name is in trimmed form, a record resolves to the same key
    with its name trimmed beforehand, and so does the whole batch, in the
    store and in the drafts. *)
Theorem names_are_trimmed_once :
  ∀ names,
    (∀ u n, u_name u = Some n → Js.trim n ≠ "" →
            ∃ k, resolveKey names u = Some k ∧ Js.trim k = k)
    ∧ (∀ u, resolveKey names (trimName u) = resolveKey names u)
    ∧ (∀ updates (prev : Store),
         applyStructuredUpdates names (trimName <$> updates) prev
         = applyStructuredUpdates names updates prev)
    ∧ (∀ updates (prev : Drafts),
         foldl (chatDraft names) prev (trimName <$> updates)
         = foldl (chatDraft names) prev updates).
Proof.
  intros names. split_and!.
  - intros u n Hn Hne. exists (Js.trim n).
    split; [by apply resolveKey_name|apply trim_idempotent].
  - apply resolveKey_trimName.
  - intros updates prev. rewrite !applyStructuredUpdates_foldl.
    revert prev. induction updates as [|u updates IH]; intros prev; [done|].
    simpl. by rewrite applyUpdate_trimName, IH.
  - intros updates. induction updates as [|u updates IH]; intros prev; [done|].
    simpl. unfold chatDraft at 2 4. by rewrite resolveKey_trimName, IH.
Qed.

Lemma default_with_value_twice (o : option string) (ph : Placeholder) :
  default (default ph ((λ v, with_value v ph) <$> o))
    ((λ v, with_value v (default ph ((λ v, with_value v ph) <$> o))) <$> o)
  = default ph ((λ v, with_value v ph) <$> o).
Proof. by destruct o. Qed.

Lemma applyStructuredUpdates_idempotent names updates (prev : Store) :
  applyStructuredUpdates names updates (applyStructuredUpdates names updates prev)
  = applyStructuredUpdates names updates prev.
Proof.
  apply map_eq. intros k. rewrite !applyStructuredUpdates_lookup.
  destruct (prev !! k) as [ph|]; [simpl|done].
  by rewrite default_with_value_twice.
Qed.

(** Batches compose and repeat harmlessly: a batch split in two, applied
    one part after the other, gives what the whole batch gives; a batch
    applied to its own result changes nothing. *)
Theorem batches_compose :
  ∀ names (prev : Store) (first second : list StructuredUpdate),
    applyStructuredUpdates names (first ++ second) prev
    = applyStructuredUpdates names second
        (applyStructuredUpdates names first prev)
    ∧ applyStructuredUpdates names first
        (applyStructuredUpdates names first prev)
      = applyStructuredUpdates names first prev.
Proof.
  intros names prev first second. split.
  - by rewrite !applyStructuredUpdates_foldl, foldl_app.
  - apply applyStructuredUpdates_idempotent.
Qed.

(** ** The draft effect *)

Lemma draftEffect_lookup st k :
  draftValues (draftEffect st) !! k
  = match draftValues st !! k with
    | Some d => Some d
    | None => ph_value <$> placeholders st !! k
    end.
Proof.
  destruct (draftValues st !! k) as [d|] eqn:Hd; [by apply draftEffect_draft|].
  unfold draftEffect. simpl. rewrite reconcile_lookup, Hd.
  destruct (placeholders st !! k) as [ph|]; [|done].
  by rewrite bool_decide_false by (by intros [? ?]).
Qed.

Lemma State_eq (st st' : State) :
  placeholders st = placeholders st' → fileName st = fileName st' →
  templateBuffer st = templateBuffer st' → orderedNames st = orderedNames st' →
  documentId st = documentId st' → draftValues st = draftValues st' →
  previewView st = previewView st' → toasts st = toasts st' →
  st = st'.
Proof. destruct st, st'. simpl. by intros -> -> -> -> -> -> -> ->. Qed.

(** The draft effect, run on the drafts of its own render, never changes a
    draft that exists: all it does is give a name of the store that has no
    draft its committed value.  Running it again changes nothing, and where
    every name of the store has a draft it changes nothing at all. *)
Theorem draft_effect_only_fills_gaps :
  ∀ st,
    (∀ k, draftValues (draftEffect st) !! k
          = match draftValues st !! k with
            | Some d => Some d
            | None => ph_value <$> placeholders st !! k
            end)
    ∧ draftEffect (draftEffect st) = draftEffect st
    ∧ (drafts_cover st → draftEffect st = st).
Proof.
  intros st. split_and!.
  - apply draftEffect_lookup.
  - apply State_eq; try done. apply map_eq. intros k.
    rewrite !draftEffect_lookup, draftEffect_placeholders.
    destruct (draftValues st !! k); [done|].
    by destruct (placeholders st !! k).
  - intros Hcover. apply State_eq; try done. apply map_eq. intros k.
    rewrite draftEffect_lookup.
    destruct (draftValues st !! k) as [d|] eqn:Hd; [done|].
    destruct (placeholders st !! k) as [ph|] eqn:Hph; [|done].
    destruct (Hcover k) as [d Hd']; [by rewrite Hph|]. congruence.
Qed.

(** ** The agent push as a whole *)






(** ** Typing and the apply button *)

(** Typing into a field changes the draft of that field and nothing else;
    the field is then dirty exactly when the text differs from the
    committed value (read as empty for a name the store lacks), only the
    last keystroke counts, and typing the former draft again restores the
    state. *)
Theorem typing_is_local :
  ∀ st name value,
    let st' := onDraftChange name value st in
    placeholders st' = placeholders st
    ∧ (∀ k, k ≠ name → draftValues st' !! k = draftValues st !! k)
    ∧ isDirty (placeholders st') (draftValues st') name
      = bool_decide (value ≠ default "" (ph_value <$> placeholders st !! name))
    ∧ (∀ value', onDraftChange name value' st' = onDraftChange name value' st)
    ∧ (∀ d, draftValues st !! name = Some d → onDraftChange name d st' = st).
Proof.
  intros st name value st'. subst st'. split_and!.
  - done.
  - intros k Hk. unfold onDraftChange. simpl. by rewrite lookup_insert_ne.
  - unfold isDirty, onDraftChange. simpl. by rewrite lookup_insert_eq.
  - intros value'. apply State_eq; try done.
    unfold onDraftChange. simpl. by rewrite insert_insert_eq.
  - intros d Hd. apply State_eq; try done.
    unfold onDraftChange. simpl. rewrite insert_insert_eq. by apply insert_id.
Qed.

(** The check button and the Enter key apply a field only while it is
    dirty: on a clean field they do nothing, and for a name of the store in
    trimmed form one request makes the field clean, so that a second
    request, whatever the service answers, changes no cell, not even the
    notifications. *)
Theorem apply_button_disables_itself :
  ∀ st name ph sync sync',
    placeholders st !! name = Some ph →
    Js.trim name = name → name ≠ "" →
    let st' := requestApply name sync st in
    isDirty (placeholders st') (draftValues st') name = false
    ∧ requestApply name sync' st' = st'.
Proof.
  intros st name ph sync sync' Hph Htrim Hne st'.
  assert (isDirty (placeholders st') (draftValues st') name = false) as Hclean.
  { subst st'. unfold requestApply.
    destruct (isDirty (placeholders st) (draftValues st) name) eqn:Hd; [|done].
    destruct (applyOne_at_name st name ph sync Hph Htrim Hne) as [Hp Hdr].
    apply isDirty_false. by rewrite Hp, Hdr. }
  split; [done|]. unfold requestApply at 1. by rewrite Hclean.
Qed.

(** ** Upload *)








(** ** The name of the downloaded file *)

Lemma is_docx_length s : is_docx s = true → String.length s = 5%nat.
Proof.
  destruct s as [|c0 [|c1 [|c2 [|c3 [|c4 [|c5 s]]]]]]; simpl; try done.
Qed.

Lemma string_length_app (s1 s2 : string) :
  String.length (s1 +:+ s2) = (String.length s1 + String.length s2)%nat.
Proof. induction s1 as [|c s1 IH]; simpl; [done|]. by rewrite IH. Qed.

Lemma replaceDocx_unfold name :
  replaceDocx name
  = if is_docx name then "-filled.docx"
    else match name with
         | EmptyString => EmptyString
         | String c name' => String c (replaceDocx name')
         end.
Proof. by destruct name. Qed.

Lemma replaceDocx_match stem ext :
  is_docx ext = true → replaceDocx (stem +:+ ext) = stem +:+ "-filled.docx".
Proof.
  intros Hext. induction stem as [|c stem IH].
  - change ("" +:+ ext) with ext. rewrite replaceDocx_unfold. by rewrite Hext.
  - change (String c stem +:+ ext) with (String c (stem +:+ ext)).
    rewrite replaceDocx_unfold.
    destruct (is_docx (String c (stem +:+ ext))) eqn:Hlong.
    + apply is_docx_length in Hlong, Hext. simpl in Hlong.
      rewrite string_length_app in Hlong. lia.
    + by rewrite IH.
Qed.

Lemma replaceDocx_no_match name :
  (∀ stem ext, name = stem +:+ ext → is_docx ext = false) →
  replaceDocx name = name.
Proof.
  induction name as [|c name IH]; intros Hno.
  - done.
  - rewrite replaceDocx_unfold, (Hno "" (String c name)) by done.
    rewrite IH; [done|]. intros stem ext ->. by apply (Hno (String c stem)).
Qed.

Lemma replaceDocx_nonempty name : name ≠ "" → replaceDocx name ≠ "".
Proof.
  intros Hne. rewrite replaceDocx_unfold.
  destruct (is_docx name); [done|]. by destruct name.
Qed.

(** The file is saved under the chosen name with its extension [.docx], in
    any mix of capitals, replaced by [-filled.docx]; a name that does not
    end so is used as it is, without any mark of being filled; without a
    name the file is [document-filled.docx].  The name is never empty. *)
Theorem download_name_rule :
  (∀ stem ext, is_docx ext = true →
     downloadName (Some (stem +:+ ext)) = stem +:+ "-filled.docx")
  ∧ (∀ name, name ≠ "" →
       (∀ stem ext, name = stem +:+ ext → is_docx ext = false) →
       downloadName (Some name) = name)
  ∧ downloadName None = "document-filled.docx"
  ∧ downloadName (Some "") = "document-filled.docx"
  ∧ (∀ fileName, downloadName fileName ≠ "").
Proof.
  split_and!.
  - intros stem ext Hext. unfold downloadName.
    rewrite bool_decide_false; [by apply replaceDocx_match|].
    intros Hempty. apply is_docx_length in Hext.
    apply (f_equal String.length) in Hempty.
    rewrite string_length_app in Hempty. simpl in Hempty. lia.
  - intros name Hne Hno. unfold downloadName.
    rewrite bool_decide_false by done. by apply replaceDocx_no_match.
  - done.
  - done.
  - intros [name|]; [|done]. unfold downloadName.
    case_bool_decide; [done|]. by apply replaceDocx_nonempty.
Qed.

(** After an upload that failed twice the session is the one before: the
    store, the drafts, the ordered names, the document id, the template and
    the preview are untouched and the failure is notified.  The file name
    alone is that of the file that failed, so a download made next saves
    the document of the session before under the new file's name. *)
Theorem failed_upload_keeps_session :
  ∀ file e e' st template,
    templateBuffer st = Some template →
    let st' := handleFileUpload file (Thrown e) (Thrown e') st in
    placeholders st' = placeholders st
    ∧ draftValues st' = draftValues st
    ∧ orderedNames st' = orderedNames st
    ∧ documentId st' = documentId st
    ∧ templateBuffer st' = templateBuffer st
    ∧ previewView st' = previewView st
    ∧ last (toasts st')
      = Some (ToastError "Upload failed" (errorMessage e' "Failed to upload file"))
    ∧ fileName st' = Some (file_name file)
    ∧ (handleDownload_saved None st').1
      = Some (downloadName (Some (file_name file)),
              fill (download_data (placeholders st)) template).
Proof.
  intros file e e' st template Htpl st'. subst st'. split_and!; try done.
  - unfold handleFileUpload, toast. simpl. apply last_snoc.
  - unfold handleDownload_saved, handleDownload, handleFileUpload. simpl.
    by rewrite Htpl.
Qed.

(** ** Counters *)






(** ** From the uploaded document to the filled one *)








(** ** The API key *)

Lemma key_invariant_load stored : key_invariant (loadApiKey (initialKeyState stored)).
Proof.
  unfold loadApiKey, key_invariant. simpl.
  destruct stored as [k|]; simpl; [|done].
  unfold truthy. simpl. case_bool_decide; simpl; [done|]. done.
Qed.

Lemma key_invariant_step ks ev : key_invariant ks → key_invariant (keyStep ks ev).
Proof.
  intros [Hopen Hstore]. destruct ev; simpl.
  - done.
  - unfold handleApiKeySave. case_bool_decide; [done|]. by split.
  - unfold onApiKeyEnter, handleApiKeySave.
    case_bool_decide; [done|]. by split.
  - by split.
  - unfold handleApiKeyDialogClose. case_bool_decide; [done|]. by split.
  - case_bool_decide; [|done]. by split.
Qed.

Lemma key_trimmed_step ks ev : key_trimmed ks → key_trimmed (keyStep ks ev).
Proof.
  intros [Hkey Hstore]. destruct ev; simpl.
  - done.
  - unfold handleApiKeySave. case_bool_decide; [done|]. split; simpl.
    + apply trim_idempotent.
    + intros k [= <-]. apply trim_idempotent.
  - unfold onApiKeyEnter, handleApiKeySave.
    case_bool_decide; [done|]. split; simpl.
    + apply trim_idempotent.
    + intros k [= <-]. apply trim_idempotent.
  - done.
  - unfold handleApiKeyDialogClose. by case_bool_decide.
  - by case_bool_decide.
Qed.

(** Whatever the browser had stored and whatever the user does with the
    dialog, once the component is mounted the dialog is never closed
    without a key, a key in use is the key in the browser's storage, and,
    if what the browser had stored was in trimmed form, so is the key in
    use.  Without a key, choosing a file leaves the editor as it is. *)
Theorem key_cells_invariant :
  ∀ stored events,
    let ks := keySession stored events in
    (apiKeyDialogOpen ks = false → openaiApiKey ks ≠ "")
    ∧ (openaiApiKey ks ≠ "" → storedKey ks = Some (openaiApiKey ks))
    ∧ ((∀ k, stored = Some k → Js.trim k = k) →
       Js.trim (openaiApiKey ks) = openaiApiKey ks)
    ∧ (∀ files first retry st,
         openaiApiKey ks = "" → (onFileChosen files first retry ks st).2 = st).
Proof.
  intros stored events ks.
  assert (key_invariant ks) as [Hopen Hstore].
  { subst ks. unfold keySession.
    induction events as [|ev events IH] using rev_ind.
    - apply key_invariant_load.
    - rewrite foldl_app. by apply key_invariant_step. }
  split_and!; [done|done| |].
  - intros Hstored.
    assert (key_trimmed ks) as [Hkey _]; [|done].
    clear Hopen Hstore. subst ks. unfold keySession.
    induction events as [|ev events IH] using rev_ind.
    + unfold loadApiKey, key_trimmed. simpl.
      destruct stored as [k|]; simpl; [|done].
      unfold truthy. simpl. case_bool_decide; simpl; [by subst k|].
      split; [by apply Hstored|]. intros k' [= <-]. by apply Hstored.
    + rewrite foldl_app. by apply key_trimmed_step.
  - intros files first retry st Hnone. unfold onFileChosen.
    destruct files as [|file files]; [done|]. by rewrite bool_decide_true.
Qed.

(** A key that is saved is found again when the page is loaded anew: the
    key in use is the input in trimmed form, both before and after the
    reload, and after it the dialog stays closed.  An input that is blank
    after trimming is not saved: no cell but the notifications changes. *)
Theorem key_save_reload :
  ∀ ks,
    let saved := handleApiKeySave ks in
    let reloaded := loadApiKey (initialKeyState (storedKey saved)) in
    (Js.trim (apiKeyInput ks) ≠ "" →
     openaiApiKey saved = Js.trim (apiKeyInput ks)
     ∧ apiKeyDialogOpen saved = false
     ∧ openaiApiKey reloaded = openaiApiKey saved
     ∧ apiKeyInput reloaded = openaiApiKey saved
     ∧ apiKeyDialogOpen reloaded = false)
    ∧ (Js.trim (apiKeyInput ks) = "" →
       openaiApiKey saved = openaiApiKey ks
       ∧ storedKey saved = storedKey ks
       ∧ apiKeyDialogOpen saved = apiKeyDialogOpen ks
       ∧ apiKeyInput saved = apiKeyInput ks
       ∧ last (keyToasts saved)
         = Some (ToastError "Invalid API key"
                   "Please enter a valid OpenAI API key")).
Proof.
  intros ks saved reloaded. subst saved reloaded. unfold handleApiKeySave.
  split; intros Hin.
  - rewrite bool_decide_false by done. simpl.
    unfold loadApiKey, truthy. simpl. by rewrite bool_decide_false by done.
  - rewrite bool_decide_true by done. simpl. split_and!; try done.
    apply last_snoc.
Qed.

(** ** The chat *)















(** ** The name universe of a session *)









End Proofs.

(** * Concrete runs *)

#[local] Existing Instance tag_engine.

(** ** Sanity checks *)

Example trim_spaces : Js.trim "  full name 	" = "full name".
Proof. reflexivity. Qed.

Example fallback_2 : fallbackName 1 = "placeholder_002".
Proof. vm_compute. reflexivity. Qed.

Example fallback_1234 : fallbackName 1233 = "placeholder_1234".
Proof. vm_compute. reflexivity. Qed.

Example rename_two :
  renameDocxByOccurrence [Text "Dear "; Tag "X"; Text ", "; Tag "X"; Tag "Y"]
    ["full_name"; "email"]
  = [Kept "Dear "; Put "[full_name]"; Kept ", "; Put "[email]";
     Put "[placeholder_003]"].
Proof. vm_compute. reflexivity. Qed.

Example lex_renamed :
  lex [Kept "Dear "; Put "[full_name]"; Put "[placeholder_003]"]
  = [Text "Dear "; Tag "full_name"; Tag "placeholder_003"].
Proof. reflexivity. Qed.

(** ** Witnesses and counterexamples *)



(** A concrete run of the binder through the theorem. *)
Lemma C3_occurrence_binding_witness :
  puts (renameDocxByOccurrence [Tag "X"; Text " and "; Tag "X"] ["full_name"]) !! 1%nat
  = Some "[placeholder_002]".
Proof.
  destruct (C3_occurrence_binding [Tag "X"; Text " and "; Tag "X"] ["full_name"])
    as (_ & _ & H).
  rewrite (H 1%nat "X" eq_refl). vm_compute. reflexivity.
Defined.







(** C8, as stated, fails: a document is uploaded and previewed, full_name
    is applied, and the engine throws while the preview is rebuilt.  The
    effect empties the container before it asks the engine, so the view
    rendered before is gone. *)
Lemma C8_counterexample :
  let file := {| file_name := "letter.docx";
                 file_content := [Text "Dear "; Tag "X"] |} in
  let res := {| document_id := "d1"; filename := "letter.docx"; message := "ok";
                res_placeholders :=
                  [{| api_order := 1; api_name := "full_name"; api_description := "" |}] |} in
  let shown := previewEffect None (Returned ())
                 (handleFileUpload file (Returned res) (Returned res) initialState) in
  let st := applyOne "full_name" (Returned ())
              (onDraftChange "full_name" "Ana" shown) in
  let st' := previewEffect (Some (Error "Multi error")) (Returned ()) st in
  previewView st = Some [Kept "Dear "; Put "[full_name]"]
  ∧ ¬ (placeholders st' = placeholders st
       ∧ draftValues st' = draftValues st
       ∧ previewView st' = previewView st).
Proof.
  intros file res shown st st'. split.
  - vm_compute. reflexivity.
  - intros (_ & _ & Hview). vm_compute in Hview. discriminate Hview.
Qed.

(** C8 at the same state: the notification is there, the container is
    empty. *)
Lemma C8_render_failure_witness :
  let file := {| file_name := "letter.docx";
                 file_content := [Text "Dear "; Tag "X"] |} in
  let res := {| document_id := "d1"; filename := "letter.docx"; message := "ok";
                res_placeholders :=
                  [{| api_order := 1; api_name := "full_name"; api_description := "" |}] |} in
  let shown := previewEffect None (Returned ())
                 (handleFileUpload file (Returned res) (Returned res) initialState) in
  let st := applyOne "full_name" (Returned ())
              (onDraftChange "full_name" "Ana" shown) in
  let st' := previewEffect (Some (Error "Multi error")) (Returned ()) st in
  last (toasts st') = Some (ToastError "Preview error" "Multi error")
  ∧ placeholders st' = placeholders st
  ∧ previewView st' = None.
Proof.
  intros file res shown st st'.
  destruct (C8_render_failure st [Kept "Dear "; Put "[full_name]"]
              (Error "Multi error") (Returned ()))
    as (Htoast & Hstore & _ & _ & _ & Hview).
  - vm_compute. reflexivity.
  - split_and!; [|exact Hstore|exact Hview].
    fold st' in Htoast. rewrite Htoast. apply last_snoc.
Defined.


(** ** The engine assumption of C6 is needed *)

(** With an engine whose parts have no [tag] property the null getter has
    no name to wrap: the preview still shows the name, the download does
    not. *)
Lemma download_without_part_tag :
  let store : Store :=
    {[ "email" := {| ph_name := "email"; ph_description := ""; ph_value := "" |} ]} in
  @substitution bare_engine (preview_data store) "email" = "[email]"
  ∧ @substitution bare_engine (download_data store) "email" = "[]".
Proof. split; vm_compute; reflexivity. Qed.

(** ** The scenarios of the specification *)

(** Tokens [X, X] and names [full_name, email]: occurrence 0 is bound to
    full_name and occurrence 1 to email; with full_name applied as Ana and
    email left empty, the export has Ana and the tag of email. *)
Example scenario_export :
  let file := {| file_name := "letter.docx";
                 file_content := [Tag "X"; Text " <"; Tag "X"; Text ">"] |} in
  let res := {| document_id := "d1"; filename := "letter.docx"; message := "ok";
                res_placeholders :=
                  [{| api_order := 1; api_name := "full_name"; api_description := "" |};
                   {| api_order := 2; api_name := "email"; api_description := "" |}] |} in
  let st := applyOne "full_name" (Returned ())
              (onDraftChange "full_name" "Ana"
                 (handleFileUpload file (Returned res) (Returned res) initialState)) in
  templateBuffer st
  = Some [Put "[full_name]"; Kept " <"; Put "[email]"; Kept ">"]
  ∧ (handleDownload None st).1
    = Some [Put "Ana"; Kept " <"; Put "[email]"; Kept ">"]
  ∧ (generateFilledArrayBuffer None st).1
    = Some [Put "Ana"; Kept " <"; Put "[email]"; Kept ">"].
Proof. vm_compute. done. Qed.

(** Ana is applied locally, then the agent delivers Ana Lopez for the same
    name: the committed value is Ana Lopez and the draft matches it. *)
Example scenario_agent_after_apply :
  let file := {| file_name := "letter.docx"; file_content := [Tag "X"] |} in
  let res := {| document_id := "d1"; filename := "letter.docx"; message := "ok";
                res_placeholders :=
                  [{| api_order := 1; api_name := "full_name"; api_description := "" |}] |} in
  let st := agentPush
              [{| u_name := Some "full_name"; u_order := None; u_value := "Ana Lopez" |}]
              (applyOne "full_name" (Returned ())
                 (onDraftChange "full_name" "Ana"
                    (handleFileUpload file (Returned res) (Returned res) initialState))) in
  ph_value <$> placeholders st !! "full_name" = Some "Ana Lopez"
  ∧ draftValues st !! "full_name" = Some "Ana Lopez"
  ∧ isDirty (placeholders st) (draftValues st) "full_name" = false.
Proof. vm_compute. done. Qed.

(** ** Further runs of the adapter *)



(** ** Runs of the further properties *)


(** Ana is typed into full_name and the check button is pressed twice. *)
Lemma apply_button_disables_itself_witness :
  let file := {| file_name := "letter.docx"; file_content := [Tag "X"] |} in
  let res := {| document_id := "d1"; filename := "letter.docx"; message := "ok";
                res_placeholders :=
                  [{| api_order := 1; api_name := "full_name"; api_description := "" |}] |} in
  let st := onDraftChange "full_name" "Ana" (uploaded file res initialState) in
  let st' := requestApply "full_name" (Returned ()) st in
  requestApply "full_name" (Thrown NotAnError) st' = st'.
Proof.
  intros file res st st'.
  destruct (apply_button_disables_itself st "full_name"
              {| ph_name := "full_name"; ph_description := ""; ph_value := "" |}
              (Returned ()) (Thrown NotAnError)) as (_ & Hsame).
  - by vm_compute.
  - reflexivity.
  - discriminate.
  - exact Hsame.
Defined.

(** A second upload fails twice while the first document is loaded. *)
Lemma failed_upload_keeps_session_witness :
  let file := {| file_name := "letter.docx"; file_content := [Tag "X"] |} in
  let other := {| file_name := "Contract.DOCX"; file_content := [Tag "Y"] |} in
  let res := {| document_id := "d1"; filename := "letter.docx"; message := "ok";
                res_placeholders :=
                  [{| api_order := 1; api_name := "full_name"; api_description := "" |}] |} in
  let st := uploaded file res initialState in
  let st' := handleFileUpload other (Thrown (Error "503")) (Thrown (Error "503")) st in
  placeholders st' = placeholders st
  ∧ (handleDownload_saved None st').1
    = Some ("Contract-filled.docx", [Put "[full_name]"]).
Proof.
  intros file other res st st'.
  destruct (failed_upload_keeps_session other (Error "503") (Error "503") st
              [Put "[full_name]"] eq_refl)
    as (Hstore & _ & _ & _ & _ & _ & _ & _ & Hsaved).
  split; [exact Hstore|]. fold st' in Hsaved. rewrite Hsaved. by vm_compute.
Defined.

Example download_names :
  downloadName (Some "Letter.DocX") = "Letter-filled.docx"
  ∧ downloadName (Some "notes.docx.txt") = "notes.docx.txt"
  ∧ downloadName (Some ".docx") = "-filled.docx".
Proof. by vm_compute. Qed.

Example key_session_run :
  let ks := keySession None [CloseKeyDialog; TypeKey "  "; SaveKey;
                             TypeKey " sk-1 "; EnterKey; OpenKeyDialog;
                             TypeKey ""; CloseKeyDialog] in
  openaiApiKey ks = "sk-1" ∧ storedKey ks = Some "sk-1"
  ∧ apiKeyDialogOpen ks = false ∧ apiKeyInput ks = "sk-1".
Proof. by vm_compute. Qed.

(** A question that is answered, one that fails, one that is refused for
    being blank: the first moves the store, all leave the conversation in
    pairs. *)
Example chat_run :
  let file := {| file_name := "letter.docx"; file_content := [Tag "X"] |} in
  let res := {| document_id := "d1"; filename := "letter.docx"; message := "ok";
                res_placeholders :=
                  [{| api_order := 1; api_name := "full_name"; api_description := "" |}] |} in
  let t := {| clock_now := 1700000000000; clock_date := 1700000000000 |} in
  let reply := {| agent_message := "Done";
                  agent_updates :=
                    [{| u_name := None; u_order := Some (Js.Int 1); u_value := "Ana" |}] |} in
  let s := foldl chatStep (openSession (Some "d1") (uploaded file res initialState))
             [TypeMessage " fill the name "; SendMessage "sk-1" t t (Returned reply);
              TypeMessage "and the rest"; SendMessage "sk-1" t t (Thrown (Error "500"));
              TypeMessage "   "; SendMessage "sk-1" t t (Returned reply)] in
  (msg_content <$> chats (cells s))
  = ["fill the name"; "Done"; "and the rest"; "Error: 500"]
  ∧ chatStore s !! "d1" = Some (chats (cells s))
  ∧ ph_value <$> placeholders (editor s) !! "full_name" = Some "Ana"
  ∧ draftValues (editor s) !! "full_name" = Some "Ana".
Proof. by vm_compute. Qed.
